(** * argus-src: error-message model, environment constants, dark-mode toggle

    A shallow embedding of the three TypeScript modules
      - [src/constants/app.ts]           (module [App]),
      - [src/models/globalErrorMsg.ts]   (module [GlobalErrorMsg]),
      - [src/utils/darkUtil.ts]          (module [DarkUtil]),
    over a small model of the JavaScript heap: objects are finite maps from
    property names to values, they live in a heap indexed by references, and
    every statement of the source that writes a property is a heap update. *)

From Stdlib Require Import Floats.
From stdpp Require Import base strings gmap list.

Open Scope string_scope.
Open Scope list_scope.

(** ** JavaScript values, objects and the heap *)

Module JS.

(** References to heap objects. *)
Abbreviation loc := positive.

(** The primitive values the three modules store: strings and numbers
    (an IEEE 754 binary64, as a JavaScript [number] is); [VUndefined] is what
    reading a property that was never written gives. *)
Inductive value : Type :=
| VUndefined
| VString (s : string)
| VNumber (n : float).

(** What an object was created by: an object literal [{...}] or
    [new GlobalErrorMsg(...)]. *)
Inductive class : Type :=
| ObjectLiteral
| GlobalErrorMsgClass.

#[global] Instance class_eq_dec : EqDecision class.
Proof. solve_decision. Defined.

(** An object: its class and its own properties. *)
Record object : Type := Object {
  proto : class;
  props : gmap string value
}.

(** The object [{}] of a class, before any property is written. *)
Definition empty_object (c : class) : object :=
  {| proto := c; props := ∅ |}.

(** [o[k]] for an own property [k] of [o]; [VUndefined] when [o] has no own
    property [k]. The prototype chain is not modelled: the result says
    nothing about an inherited name such as [constructor] or [toString]. *)
Definition get_prop (k : string) (o : object) : value :=
  default VUndefined (props o !! k).

(** [o[k] = v] on an ordinary (not frozen) object: the property is created
    or overwritten. *)
Definition set_prop (k : string) (v : value) (o : object) : object :=
  {| proto := proto o; props := <[k := v]> (props o) |}.

(** Allocation of a new object at a reference the heap does not use. *)
Definition alloc (o : object) (h : gmap loc object) : loc * gmap loc object :=
  let l := fresh (dom h) in (l, <[l := o]> h).

(** [l.k]: the read fails ([None]) only when [l] refers to no object. *)
Definition get (l : loc) (k : string) (h : gmap loc object) : option value :=
  get_prop k <$> h !! l.

(** [l.k = v]: the object [l] refers to is updated in place; every alias of
    [l] sees the write. *)
Definition put (l : loc) (k : string) (v : value) (h : gmap loc object)
  : gmap loc object :=
  alter (set_prop k v) l h.

End JS.

Import JS.

(** ** src/constants/app.ts *)

Module App.

(** The object literal
    [{ PRODUCTION: 'production', DEVELOPMENT: 'development' }],
    its properties written in source order. *)
Definition literal : object :=
  set_prop "DEVELOPMENT" (VString "development")
    (set_prop "PRODUCTION" (VString "production")
       (empty_object ObjectLiteral)).

(** [const app = {...}]: evaluating the module allocates the literal and
    binds [app] to its reference. *)
Definition app (h : gmap loc object) : loc * gmap loc object :=
  alloc literal h.

(** The module's export table: [export default app] and nothing else. *)
Definition exports (app : loc) : gmap string loc :=
  {[ "default" := app ]}.

End App.

(** ** src/models/globalErrorMsg.ts *)

Module GlobalErrorMsg.

(** The declared fields [title], [msg], [duration], [type]; none carries a
    [readonly], [private] or [protected] modifier. *)
Definition fields : list string := ["title"; "msg"; "duration"; "type"].

(** The declared type of [type]:
    ['success' | 'warning' | 'info' | 'error' | '']. It is a compile-time
    annotation only: no code of the class inspects the string. *)
Definition NotifyType : list string :=
  ["success"; "warning"; "info"; "error"; EmptyString].

(** [constructor(title, msg, duration, type)]: four assignments to
    [this], in source order. *)
Definition constructor (this : loc)
    (title msg : string) (duration : float) (type : string)
    (h : gmap loc object) : gmap loc object :=
  let h := put this "title" (VString title) h in
  let h := put this "msg" (VString msg) h in
  let h := put this "duration" (VNumber duration) h in
  let h := put this "type" (VString type) h in
  h.

(** [new GlobalErrorMsg(title, msg, duration, type)]: a new object of the
    class is allocated, the constructor runs on it, and the reference is the
    result. *)
Definition new (title msg : string) (duration : float) (type : string)
    (h : gmap loc object) : loc * gmap loc object :=
  let '(this, h) := alloc (empty_object GlobalErrorMsgClass) h in
  (this, constructor this title msg duration type h).

(** The object a construction leaves at the new reference, written as a
    literal. *)
Definition record (title msg : string) (duration : float) (type : string)
  : object :=
  {| proto := GlobalErrorMsgClass;
     props := {[ "title" := VString title; "msg" := VString msg;
                 "duration" := VNumber duration; "type" := VString type ]} |}.

End GlobalErrorMsg.

(** ** The reactive collaborator ([@vueuse/core]) *)

Module VueUse.

(** Observers of a signal are named by numbers. *)
Abbreviation observer := nat.

(** Modelled from the spec: the state of the reactive-state library, whose
    code is not part of the repository. It holds the boolean signals, the
    observers registered on each signal in registration order, and the
    notifications delivered so far (observer, value it was given), oldest
    first. *)
Record runtime : Type := Runtime {
  refs : gmap loc bool;
  watchers : list (loc * observer);
  delivered : list (observer * bool)
}.

(** Modelled from the spec: the library state before any signal exists. *)
Definition init : runtime :=
  {| refs := ∅; watchers := []; delivered := [] |}.

(** Modelled from the spec: [r.value], the current value of a signal;
    [None] when [r] names no signal. *)
Definition ref_value (r : loc) (rt : runtime) : option bool :=
  refs rt !! r.

(** Modelled from the spec: the observers registered on signal [r], in
    registration order. *)
Definition observers (r : loc) (rt : runtime) : list observer :=
  (filter (λ w, w.1 = r) (watchers rt)).*2.

(** Modelled from the spec: registering observer [o] on signal [r]
    (the library's [watch]); the spec speaks of "previously-registered"
    observers and leaves the registration call to the library. *)
Definition watch (r : loc) (o : observer) (rt : runtime) : runtime :=
  {| refs := refs rt;
     watchers := watchers rt ++ [(r, o)];
     delivered := delivered rt |}.

(** Modelled from the spec: [useDark()], "a function that creates a
    persisted/observable boolean signal tracking dark mode active"; its
    initial value is the host's theme preference [pref], an opaque
    boolean. *)
Definition useDark (pref : bool) (rt : runtime) : loc * runtime :=
  let r := fresh (dom (refs rt)) in
  (r, {| refs := <[r := pref]> (refs rt);
         watchers := watchers rt;
         delivered := delivered rt |}).

(** Modelled from the spec: a write [r.value = v], which "propagates the
    new value to any observer of the signal". The spec's wording is followed:
    the notifications are recorded with the write. When the library runs an
    observer is its own affair and is not decided by the repository. *)
Definition set_value (r : loc) (v : bool) (rt : runtime) : runtime :=
  {| refs := <[r := v]> (refs rt);
     watchers := watchers rt;
     delivered := delivered rt ++ ((λ o, (o, v)) <$> observers r rt) |}.

(** Modelled from the spec: [useToggle(r)], "a function that wraps a signal
    into a toggle operation": the zero-argument operation it returns writes
    the negation of the signal's current value. *)
Definition useToggle (r : loc) : runtime → runtime :=
  λ rt, match ref_value r rt with
        | Some b => set_value r (negb b) rt
        | None => rt
        end.

End VueUse.

Import VueUse.

(** ** src/utils/darkUtil.ts *)

Module DarkUtil.

(** What the module exports: the signal and the toggle operation. *)
Record exports : Type := Exports {
  isDark : loc;
  toggleDark : runtime → runtime
}.

(** Evaluation of the module:
    [export const isDark = useDark();]
    [export const toggleDark = useToggle(isDark);] *)
Definition load (pref : bool) (rt : runtime) : exports * runtime :=
  let '(isDark, rt) := useDark pref rt in
  let toggleDark := useToggle isDark in
  ({| isDark := isDark; toggleDark := toggleDark |}, rt).

End DarkUtil.

(** ** The three modules as one program *)

Module Program.

(** The state of the process: the heap of objects and the state of the
    reactive library. *)
Record world : Type := World {
  heap : gmap loc object;
  reactive : runtime
}.

(** The bindings the modules export. *)
Record modules : Type := Modules {
  app : loc;
  dark : DarkUtil.exports
}.

(** Module initialisation, from the empty process state; [pref] is the
    host's theme preference. The class declaration of [globalErrorMsg.ts]
    allocates nothing. *)
Definition boot (pref : bool) : modules * world :=
  let '(app, h) := App.app ∅ in
  let '(dark, rt) := DarkUtil.load pref VueUse.init in
  ({| app := app; dark := dark |}, {| heap := h; reactive := rt |}).

(** [l instanceof GlobalErrorMsg]. *)
Definition instance_of (l : loc) (h : gmap loc object) : bool :=
  match h !! l with
  | Some o => bool_decide (proto o = GlobalErrorMsgClass)
  | None => false
  end.

(** The operations the three modules offer to the rest of the process:
    constructing an error message, assigning to a field of one, registering
    an observer on [isDark], and [toggleDark()]. *)
Inductive op : Type :=
| New (title msg : string) (duration : float) (type : string)
| Assign (l : loc) (k : string) (v : value)
| Watch (o : observer)
| ToggleDark.

(** [new GlobalErrorMsg(...)] in a process state. *)
Definition construct (title msg : string) (duration : float) (type : string)
    (w : world) : loc * world :=
  let '(this, h) := GlobalErrorMsg.new title msg duration type (heap w) in
  (this, {| heap := h; reactive := reactive w |}).

(** One operation. An assignment [l.k = v] type-checks against the class
    only when [l] is a [GlobalErrorMsg] and [k] one of its fields. *)
Definition exec (m : modules) (o : op) (w : world) : world :=
  match o with
  | New title msg duration type => (construct title msg duration type w).2
  | Assign l k v =>
      if instance_of l (heap w) && bool_decide (k ∈ GlobalErrorMsg.fields)
      then {| heap := put l k v (heap w); reactive := reactive w |}
      else w
  | Watch o =>
      {| heap := heap w;
         reactive := watch (DarkUtil.isDark (dark m)) o (reactive w) |}
  | ToggleDark =>
      {| heap := heap w;
         reactive := DarkUtil.toggleDark (dark m) (reactive w) |}
  end.

(** A sequence of operations, first to last. *)
Definition run (m : modules) (ops : list op) (w : world) : world :=
  foldl (λ w o, exec m o w) w ops.

(** One operation as JavaScript runs it, without the type check of [exec]:
    an assignment [l.k = v] writes to whatever object [l] refers to, the
    [app] literal included, under any property name. The other operations
    are those of [exec]. *)
Definition exec_js (m : modules) (o : op) (w : world) : world :=
  match o with
  | Assign l k v => {| heap := put l k v (heap w); reactive := reactive w |}
  | _ => exec m o w
  end.

(** A sequence of operations run without type checks, first to last. *)
Definition run_js (m : modules) (ops : list op) (w : world) : world :=
  foldl (λ w o, exec_js m o w) w ops.

(** [o] is no assignment to [PRODUCTION] or [DEVELOPMENT] through the
    reference [a]. *)
Definition spares_constants (a : loc) (o : op) : Prop :=
  ∀ v, o ≠ Assign a "PRODUCTION" v ∧ o ≠ Assign a "DEVELOPMENT" v.

(** The two constants can be read from the object at [a]. *)
Definition holds_constants (a : loc) (h : gmap loc object) : Prop :=
  get a "PRODUCTION" h = Some (VString "production") ∧
  get a "DEVELOPMENT" h = Some (VString "development").

(** Every object of the class has exactly the four declared fields as its
    properties. *)
Definition well_shaped (h : gmap loc object) : Prop :=
  ∀ l o, h !! l = Some o → proto o = GlobalErrorMsgClass →
         dom (props o) = list_to_set GlobalErrorMsg.fields.

End Program.

Import Program.

(** * Properties *)

(** ** The heap *)

Section HeapLemmas.
Implicit Types (h : gmap loc object) (l : loc) (k : string).
Implicit Types (v : value) (o : object).

Lemma alloc_fresh o h : h !! (alloc o h).1 = None.
Proof. apply (not_elem_of_dom (D := gset loc)), is_fresh. Qed.

Lemma alloc_lookup o h : (alloc o h).2 !! (alloc o h).1 = Some o.
Proof. apply lookup_insert_eq. Qed.

Lemma put_insert l k v o h :
  put l k v (<[l := o]> h) = <[l := set_prop k v o]> h.
Proof. unfold put. apply alter_insert_eq. Qed.

Lemma put_lookup_ne l l' k v h : l ≠ l' → put l k v h !! l' = h !! l'.
Proof. intros Hne. unfold put. by rewrite lookup_alter_ne. Qed.

Lemma get_put_eq l k v o h :
  h !! l = Some o → get l k (put l k v h) = Some v.
Proof.
  intros Hl. unfold get, put. rewrite lookup_alter_eq, Hl. simpl.
  unfold get_prop. simpl. by rewrite lookup_insert_eq.
Qed.

Lemma get_put_ne l k k' v h :
  k ≠ k' → get l k' (put l k v h) = get l k' h.
Proof.
  intros Hne. unfold get, put. rewrite lookup_alter_eq.
  destruct (h !! l) as [o|]; simpl; [|done].
  unfold get_prop. simpl. by rewrite lookup_insert_ne.
Qed.
End HeapLemmas.

(** ** GlobalErrorMsg *)

(** The four assignments of the constructor, run on the empty object, build
    exactly the record with the four arguments. *)
Lemma record_props title msg duration type :
  set_prop "type" (VString type)
    (set_prop "duration" (VNumber duration)
       (set_prop "msg" (VString msg)
          (set_prop "title" (VString title)
             (empty_object GlobalErrorMsgClass))))
  = GlobalErrorMsg.record title msg duration type.
Proof. reflexivity. Qed.

Lemma new_eq title msg duration type (h : gmap loc object) :
  GlobalErrorMsg.new title msg duration type h
  = (fresh (dom h),
     <[fresh (dom h) := GlobalErrorMsg.record title msg duration type]> h).
Proof.
  unfold GlobalErrorMsg.new, GlobalErrorMsg.constructor, alloc.
  f_equal. rewrite !put_insert. by rewrite record_props.
Qed.

Lemma construct_eq title msg duration type (w : world) :
  construct title msg duration type w
  = (fresh (dom (heap w)),
     {| heap := <[fresh (dom (heap w))
                  := GlobalErrorMsg.record title msg duration type]> (heap w);
        reactive := reactive w |}).
Proof. unfold construct. by rewrite new_eq. Qed.

Lemma new_fields title msg duration type (h : gmap loc object) :
  let '(this, h') := GlobalErrorMsg.new title msg duration type h in
  h' !! this = Some (GlobalErrorMsg.record title msg duration type) ∧
  get this "title" h' = Some (VString title) ∧
  get this "msg" h' = Some (VString msg) ∧
  get this "duration" h' = Some (VNumber duration) ∧
  get this "type" h' = Some (VString type).
Proof. rewrite new_eq. unfold get. by rewrite lookup_insert_eq. Qed.

(** C1: for a duration [>= 0] and a type among ['success'], ['warning'],
    ['info'], ['error'] and [''], [new GlobalErrorMsg(title, msg, duration,
    type)] yields an object that is exactly the record of the four arguments:
    reading [title], [msg], [duration] and [type] gives back the arguments,
    untransformed, and there is no other property. *)
Theorem constructor_stores_valid_inputs
    (title msg : string) (duration : float) (type : string)
    (h : gmap loc object) :
  (0 <=? duration)%float = true →
  type ∈ GlobalErrorMsg.NotifyType →
  let '(this, h') := GlobalErrorMsg.new title msg duration type h in
  h' !! this = Some (GlobalErrorMsg.record title msg duration type) ∧
  get this "title" h' = Some (VString title) ∧
  get this "msg" h' = Some (VString msg) ∧
  get this "duration" h' = Some (VNumber duration) ∧
  get this "type" h' = Some (VString type).
Proof. intros _ _. apply new_fields. Qed.

(** The example of the specification:
    [new GlobalErrorMsg("Network Error", "Failed to reach server", 5000,
    "error")]. *)
Lemma constructor_stores_network_error :
  (0 <=? 5000)%float = true ∧
  "error" ∈ GlobalErrorMsg.NotifyType ∧
  let '(this, h') :=
    GlobalErrorMsg.new "Network Error" "Failed to reach server" 5000 "error" ∅
  in
  h' !! this = Some (GlobalErrorMsg.record
                       "Network Error" "Failed to reach server" 5000 "error") ∧
  get this "title" h' = Some (VString "Network Error") ∧
  get this "msg" h' = Some (VString "Failed to reach server") ∧
  get this "duration" h' = Some (VNumber 5000) ∧
  get this "type" h' = Some (VString "error").
Proof.
  assert (H0 : (0 <=? 5000)%float = true) by reflexivity.
  assert (Hty : "error" ∈ GlobalErrorMsg.NotifyType)
    by (unfold GlobalErrorMsg.NotifyType; set_solver).
  split; [exact H0|]. split; [exact Hty|].
  exact (constructor_stores_valid_inputs
           "Network Error" "Failed to reach server" 5000 "error" ∅ H0 Hty).
Defined.

(** C5: construction and the reads of the four fields succeed for every
    input, with no condition on the duration (negative, NaN) or on the type
    string (any string, inside or outside the declared union): the
    arguments are stored unchanged. *)
Theorem construction_total
    (title msg : string) (duration : float) (type : string)
    (h : gmap loc object) :
  let '(this, h') := GlobalErrorMsg.new title msg duration type h in
  h' !! this = Some (GlobalErrorMsg.record title msg duration type) ∧
  get this "title" h' = Some (VString title) ∧
  get this "msg" h' = Some (VString msg) ∧
  get this "duration" h' = Some (VNumber duration) ∧
  get this "type" h' = Some (VString type).
Proof. apply new_fields. Qed.

(** A negative duration and a type outside the union are stored as given. *)
Example construction_unvalidated :
  let '(this, h') := GlobalErrorMsg.new "t" "m" (-1) "fatal" ∅ in
  get this "duration" h' = Some (VNumber (-1)) ∧
  get this "type" h' = Some (VString "fatal") ∧
  (0 <=? -1)%float = false ∧
  "fatal" ∉ GlobalErrorMsg.NotifyType.
Proof.
  split_and!; [reflexivity | reflexivity | reflexivity |].
  by apply (bool_decide_unpack _).
Qed.

(** C7: a construction touches the new record only. The reference is one
    the heap did not use; the object stored there is the record of the four
    arguments, with the four declared fields as its only properties; removing
    it gives back the heap as it was (so every earlier record and the [app]
    object are as before); the reactive state is as before. *)
Theorem construct_frame
    (title msg : string) (duration : float) (type : string) (w : world) :
  let '(this, w') := construct title msg duration type w in
  heap w !! this = None ∧
  heap w' !! this = Some (GlobalErrorMsg.record title msg duration type) ∧
  dom (props (GlobalErrorMsg.record title msg duration type))
    = list_to_set GlobalErrorMsg.fields ∧
  delete this (heap w') = heap w ∧
  reactive w' = reactive w.
Proof.
  rewrite construct_eq. simpl.
  assert (Hfresh : heap w !! fresh (dom (heap w)) = None)
    by apply (alloc_fresh (empty_object ObjectLiteral)).
  split_and!; [done | by rewrite lookup_insert_eq | done | | done].
  rewrite delete_insert_eq. by apply delete_id.
Qed.

Lemma instance_of_Some (l : loc) (h : gmap loc object) :
  instance_of l h = true →
  ∃ o, h !! l = Some o ∧ proto o = GlobalErrorMsgClass.
Proof.
  unfold instance_of. destruct (h !! l) as [o|]; [|done].
  intros Hc. apply bool_decide_eq_true in Hc. by exists o.
Qed.

(** C9: the fields of an instance are writable. An assignment to one of the
    four fields of a [GlobalErrorMsg] sets that field to the assigned value
    and leaves the other three as they were. *)
Theorem field_assignment
    (m : modules) (w : world) (l : loc) (k : string) (v : value) :
  instance_of l (heap w) = true →
  k ∈ GlobalErrorMsg.fields →
  let w' := exec m (Assign l k v) w in
  get l k (heap w') = Some v ∧
  ∀ k', k' ∈ GlobalErrorMsg.fields → k' ≠ k →
        get l k' (heap w') = get l k' (heap w).
Proof.
  intros Hinst Hk. simpl. rewrite Hinst, bool_decide_eq_true_2 by done. simpl.
  destruct (instance_of_Some _ _ Hinst) as (o & Hl & _).
  split; [by apply get_put_eq with o|].
  intros k' _ Hne. by apply get_put_ne.
Qed.

(** The title of a constructed message is overwritten. *)
Lemma field_assignment_title :
  let m := (boot true).1 in
  let w := (construct "Network Error" "Failed to reach server" 5000 "error"
              (boot true).2).2 in
  let l : loc := 2%positive in
  instance_of l (heap w) = true ∧
  "title" ∈ GlobalErrorMsg.fields ∧
  let w' := exec m (Assign l "title" (VString "Timeout")) w in
  get l "title" (heap w') = Some (VString "Timeout") ∧
  ∀ k', k' ∈ GlobalErrorMsg.fields → k' ≠ "title" →
        get l k' (heap w') = get l k' (heap w).
Proof.
  intros m w l.
  assert (Hinst : instance_of l (heap w) = true) by reflexivity.
  assert (Hk : "title" ∈ GlobalErrorMsg.fields)
    by (unfold GlobalErrorMsg.fields; set_solver).
  split; [exact Hinst|]. split; [exact Hk|].
  exact (field_assignment m w l "title" (VString "Timeout") Hinst Hk).
Defined.

(** ** The environment constants *)

(** C4: [app.PRODUCTION] is ["production"], [app.DEVELOPMENT] is
    ["development"], and the two values differ. *)
Theorem app_constants (h : gmap loc object) :
  let '(app, h') := App.app h in
  get app "PRODUCTION" h' = Some (VString "production") ∧
  get app "DEVELOPMENT" h' = Some (VString "development") ∧
  get app "PRODUCTION" h' ≠ get app "DEVELOPMENT" h'.
Proof.
  unfold App.app, alloc, get. rewrite lookup_insert_eq. simpl.
  split_and!; [done | done | ]. intros Heq. discriminate Heq.
Qed.

(** C10: the object bound to [app] has the two properties [PRODUCTION] and
    [DEVELOPMENT] and no other, and the module exports it under [default]
    and exports nothing else. *)
Theorem app_shape (h : gmap loc object) :
  let '(app, h') := App.app h in
  h' !! app = Some App.literal ∧
  dom (props App.literal) = {[ "PRODUCTION"; "DEVELOPMENT" ]} ∧
  App.exports app !! "default" = Some app ∧
  dom (App.exports app) = {[ "default" ]}.
Proof.
  unfold App.app, alloc. rewrite lookup_insert_eq.
  split_and!; [done | done | done | ].
  unfold App.exports. by rewrite dom_singleton_L.
Qed.

Section Constants.
Variable m : modules.
Variable a : loc.

(** An operation that is no assignment to one of the two constants through
    [a] leaves both readable at [a]: a construction writes to a new
    reference, an assignment elsewhere or to another property leaves the two
    properties alone, and the operations on the signal leave the heap
    alone. *)
Lemma exec_js_keeps_constants (o : op) (w : world) :
  spares_constants a o →
  holds_constants a (heap w) →
  holds_constants a (heap (exec_js m o w)).
Proof.
  intros Hsp [Hp Hd].
  assert (Ha : is_Some (heap w !! a)).
  { unfold get in Hp. destruct (heap w !! a); [by eexists | done]. }
  destruct o as [title msg duration type | l k v | ob | ];
    unfold exec_js, exec; [| | done | done].
  - rewrite construct_eq. simpl. unfold holds_constants, get.
    rewrite lookup_insert_ne; [done|].
    intros Heq. rewrite <- Heq in Ha.
    pose proof (alloc_fresh (empty_object ObjectLiteral) (heap w)) as Hf.
    simpl in Hf. rewrite Hf in Ha. by destruct Ha.
  - simpl. destruct (decide (l = a)) as [->|Hne].
    + destruct (Hsp v) as [Hk1 Hk2].
      assert (k ≠ "PRODUCTION") by (intros ->; by apply Hk1).
      assert (k ≠ "DEVELOPMENT") by (intros ->; by apply Hk2).
      split; by rewrite get_put_ne.
    + unfold holds_constants, get. by rewrite put_lookup_ne.
Qed.

Lemma run_js_keeps_constants (ops : list op) (w : world) :
  Forall (spares_constants a) ops →
  holds_constants a (heap w) →
  holds_constants a (heap (run_js m ops w)).
Proof.
  intros Hops. revert w.
  induction Hops as [|o ops Ho Hops IH]; intros w Hw; simpl; [done|].
  apply IH. by apply exec_js_keeps_constants.
Qed.
End Constants.

Lemma boot_app (pref : bool) :
  heap (boot pref).2 !! app (boot pref).1 = Some App.literal.
Proof. reflexivity. Qed.

(** C6, as stated, fails: the object bound to [app] is an ordinary object
    literal, neither frozen nor declared read-only, so the assignment
    [app.PRODUCTION = "staging"] after module initialisation succeeds, and
    the next read of [PRODUCTION] gives ["staging"], not ["production"]. *)
Lemma app_production_overwritten :
  let m := (boot true).1 in
  let w := run_js m [Assign (app m) "PRODUCTION" (VString "staging")]
             (boot true).2 in
  get (app m) "PRODUCTION" (heap w) = Some (VString "staging") ∧
  get (app m) "PRODUCTION" (heap w) ≠ Some (VString "production").
Proof.
  intros m w. split; [reflexivity|]. intros Heq. discriminate Heq.
Qed.

(** C6, amended: the object is writable, and nothing else changes the two
    constants. After module initialisation, along every sequence of
    operations run as JavaScript runs them (constructions, assignments to
    any property of any object, observer registrations, toggles) that holds
    no assignment to [app.PRODUCTION] or [app.DEVELOPMENT], reading
    [PRODUCTION] gives ["production"] and reading [DEVELOPMENT] gives
    ["development"]. *)
Theorem app_constants_kept (pref : bool) (ops : list op) :
  let m := (boot pref).1 in
  Forall (spares_constants (app m)) ops →
  let w := run_js m ops (boot pref).2 in
  get (app m) "PRODUCTION" (heap w) = Some (VString "production") ∧
  get (app m) "DEVELOPMENT" (heap w) = Some (VString "development").
Proof.
  intros m Hops w.
  apply (run_js_keeps_constants m (app m) ops (boot pref).2 Hops).
  split; reflexivity.
Qed.

(** A construction, a new property [STAGING] on [app], an assignment to the
    record, a toggle and an observer registration leave the two constants
    as they were. *)
Lemma app_constants_kept_example :
  let m := (boot true).1 in
  let ops := [New "Network Error" "Failed to reach server" 5000 "error";
              Assign (app m) "STAGING" (VString "staging");
              Assign 2%positive "title" (VString "Timeout");
              ToggleDark; Watch 7] in
  Forall (spares_constants (app m)) ops ∧
  let w := run_js m ops (boot true).2 in
  get (app m) "PRODUCTION" (heap w) = Some (VString "production") ∧
  get (app m) "DEVELOPMENT" (heap w) = Some (VString "development").
Proof.
  intros m ops.
  assert (Hops : Forall (spares_constants (app m)) ops)
    by (repeat constructor; intros Heq; discriminate Heq).
  split; [exact Hops|].
  exact (app_constants_kept true ops Hops).
Defined.

(** ** The dark-mode signal *)

Section Signal.
Implicit Types (r : loc) (rt : runtime) (b v : bool) (o : observer).

Lemma ref_value_set_value r v rt : ref_value r (set_value r v rt) = Some v.
Proof. unfold ref_value, set_value. simpl. apply lookup_insert_eq. Qed.

Lemma ref_value_set_value_ne r r' v rt :
  r ≠ r' → ref_value r' (set_value r v rt) = ref_value r' rt.
Proof.
  intros Hne. unfold ref_value, set_value. simpl. by apply lookup_insert_ne.
Qed.

Lemma useToggle_Some r rt b :
  ref_value r rt = Some b → useToggle r rt = set_value r (negb b) rt.
Proof. intros Hb. unfold useToggle. by rewrite Hb. Qed.

Lemma useToggle_None r rt : ref_value r rt = None → useToggle r rt = rt.
Proof. intros Hb. unfold useToggle. by rewrite Hb. Qed.

Lemma useToggle_value r rt :
  ref_value r (useToggle r rt) = negb <$> ref_value r rt.
Proof.
  destruct (ref_value r rt) as [b|] eqn:Hb.
  - rewrite (useToggle_Some _ _ _ Hb). apply ref_value_set_value.
  - by rewrite (useToggle_None _ _ Hb), Hb.
Qed.

(** The wiring of [darkUtil.ts]: [toggleDark] is the toggle of [isDark]. *)
Lemma load_toggleDark pref rt0 :
  DarkUtil.toggleDark (DarkUtil.load pref rt0).1
  = useToggle (DarkUtil.isDark (DarkUtil.load pref rt0).1).
Proof. reflexivity. Qed.

Lemma load_isDark_value pref rt0 :
  ref_value (DarkUtil.isDark (DarkUtil.load pref rt0).1)
            (DarkUtil.load pref rt0).2
  = Some pref.
Proof.
  unfold DarkUtil.load, useDark, ref_value. simpl. apply lookup_insert_eq.
Qed.
End Signal.

(** C2: one call of [toggleDark()] leaves [isDark] at the negation of the
    value it had before the call, whichever of the two values that was. *)
Theorem toggleDark_negates (pref : bool) (rt0 rt : runtime) (b : bool) :
  let m := (DarkUtil.load pref rt0).1 in
  ref_value (DarkUtil.isDark m) rt = Some b →
  ref_value (DarkUtil.isDark m) (DarkUtil.toggleDark m rt) = Some (negb b).
Proof.
  intros m Hb. unfold m. rewrite load_toggleDark, useToggle_value.
  fold m. by rewrite Hb.
Qed.

(** Right after the module is loaded with a dark host preference, a toggle
    gives light. *)
Lemma toggleDark_negates_after_load :
  let m := (DarkUtil.load true VueUse.init).1 in
  let rt := (DarkUtil.load true VueUse.init).2 in
  ref_value (DarkUtil.isDark m) rt = Some true ∧
  ref_value (DarkUtil.isDark m) (DarkUtil.toggleDark m rt) = Some false.
Proof.
  intros m rt.
  assert (Hb : ref_value (DarkUtil.isDark m) rt = Some true) by reflexivity.
  split; [exact Hb|].
  exact (toggleDark_negates true VueUse.init rt true Hb).
Defined.

(** C3: two calls of [toggleDark()] in succession give [isDark] the value it
    had before the first. *)
Theorem toggleDark_twice (pref : bool) (rt0 rt : runtime) :
  let m := (DarkUtil.load pref rt0).1 in
  ref_value (DarkUtil.isDark m)
            (DarkUtil.toggleDark m (DarkUtil.toggleDark m rt))
  = ref_value (DarkUtil.isDark m) rt.
Proof.
  intros m. unfold m. rewrite load_toggleDark, !useToggle_value.
  destruct (ref_value _ rt) as [[]|]; reflexivity.
Qed.

(** In every state the program reaches, the signal [isDark] exists, so the
    condition under which a toggle negates it is met along every run. *)
Lemma exec_keeps_signal (m : modules) (o : op) (w : world) :
  is_Some (ref_value (DarkUtil.isDark (dark m)) (reactive w)) →
  DarkUtil.toggleDark (dark m) = useToggle (DarkUtil.isDark (dark m)) →
  is_Some (ref_value (DarkUtil.isDark (dark m)) (reactive (exec m o w))).
Proof.
  intros Hs Ht.
  destruct o as [title msg duration type | l k v | ob | ]; unfold exec.
  - by rewrite construct_eq.
  - by destruct (instance_of l (heap w)
                 && bool_decide (k ∈ GlobalErrorMsg.fields)).
  - done.
  - simpl. rewrite Ht, useToggle_value. by apply fmap_is_Some.
Qed.

Lemma isDark_allocated (pref : bool) (ops : list op) :
  is_Some (ref_value (DarkUtil.isDark (dark (boot pref).1))
             (reactive (run (boot pref).1 ops (boot pref).2))).
Proof.
  assert (H0 : is_Some (ref_value (DarkUtil.isDark (dark (boot pref).1))
                          (reactive (boot pref).2))) by (by exists pref).
  assert (Ht : DarkUtil.toggleDark (dark (boot pref).1)
               = useToggle (DarkUtil.isDark (dark (boot pref).1)))
    by reflexivity.
  revert H0 Ht. generalize (boot pref).1 as m, (boot pref).2 as w. intros m w.
  revert w. induction ops as [|o ops IH]; intros w H0 Ht; simpl; [done|].
  apply IH; [|done]. by apply exec_keeps_signal.
Qed.

(** ** Several records

    Two allocations in a row give two references. *)
Lemma fresh_insert_ne (o : object) (h : gmap loc object) :
  fresh (dom h) ≠ fresh (dom (<[fresh (dom h) := o]> h)).
Proof.
  intros Heq.
  pose proof (is_fresh (dom (<[fresh (dom h) := o]> h))) as Hf.
  rewrite <- Heq in Hf. apply Hf. rewrite dom_insert_L. set_solver.
Qed.

(** X1: two constructions in a row return two different references, and
    after the second each reference holds the record of its own arguments,
    also when the two argument lists are the same. *)
Theorem successive_constructions_distinct
    (t1 m1 : string) (d1 : float) (ty1 : string)
    (t2 m2 : string) (d2 : float) (ty2 : string) (h : gmap loc object) :
  let '(l1, h1) := GlobalErrorMsg.new t1 m1 d1 ty1 h in
  let '(l2, h2) := GlobalErrorMsg.new t2 m2 d2 ty2 h1 in
  l1 ≠ l2 ∧
  h2 !! l1 = Some (GlobalErrorMsg.record t1 m1 d1 ty1) ∧
  h2 !! l2 = Some (GlobalErrorMsg.record t2 m2 d2 ty2).
Proof.
  rewrite new_eq. cbv beta iota. rewrite new_eq. cbv beta iota.
  pose proof (fresh_insert_ne (GlobalErrorMsg.record t1 m1 d1 ty1) h) as Hne.
  split_and!; [done | | by rewrite lookup_insert_eq].
  rewrite lookup_insert_ne by done. by rewrite lookup_insert_eq.
Qed.

(** X2: records do not share state. After two constructions, an assignment
    to any property of one record leaves the other record as constructed. *)
Theorem instances_independent
    (t1 m1 : string) (d1 : float) (ty1 : string)
    (t2 m2 : string) (d2 : float) (ty2 : string)
    (k : string) (v : value) (h : gmap loc object) :
  let '(l1, h1) := GlobalErrorMsg.new t1 m1 d1 ty1 h in
  let '(l2, h2) := GlobalErrorMsg.new t2 m2 d2 ty2 h1 in
  put l1 k v h2 !! l2 = Some (GlobalErrorMsg.record t2 m2 d2 ty2) ∧
  put l2 k v h2 !! l1 = Some (GlobalErrorMsg.record t1 m1 d1 ty1).
Proof.
  rewrite new_eq. cbv beta iota. rewrite new_eq. cbv beta iota.
  pose proof (fresh_insert_ne (GlobalErrorMsg.record t1 m1 d1 ty1) h) as Hne.
  split.
  - rewrite put_lookup_ne by done. by rewrite lookup_insert_eq.
  - rewrite put_lookup_ne by done.
    rewrite lookup_insert_ne by done. by rewrite lookup_insert_eq.
Qed.

(** X3: evaluating [app.ts] only allocates: the reference bound to [app]
    was unused, and apart from it the heap is as before. *)
Theorem app_module_frame (h : gmap loc object) :
  let '(app, h') := App.app h in
  h !! app = None ∧ delete app h' = h.
Proof.
  unfold App.app, alloc.
  assert (Hf : h !! fresh (dom h) = None) by apply (alloc_fresh App.literal).
  split; [done|]. rewrite delete_insert_eq. by apply delete_id.
Qed.

(** ** Invariants of the program *)

Section Shape.
Variable m : modules.

Lemma exec_keeps_shape (o : op) (w : world) :
  well_shaped (heap w) → well_shaped (heap (exec m o w)).
Proof.
  intros Hw.
  destruct o as [title msg duration type | l k v | ob | ]; unfold exec.
  - rewrite construct_eq. simpl. intros l o Hl Hc.
    destruct (decide (l = fresh (dom (heap w)))) as [->|Hne].
    + rewrite lookup_insert_eq in Hl. by inversion Hl.
    + rewrite lookup_insert_ne in Hl by done. by apply (Hw l).
  - destruct (instance_of l (heap w)) eqn:Hinst; simpl; [|done].
    case_bool_decide as Hk; simpl; [|done].
    intros l' o' Hl' Hc. destruct (decide (l = l')) as [<-|Hne].
    + unfold put in Hl'. rewrite lookup_alter_eq in Hl'.
      destruct (heap w !! l) as [o0|] eqn:Hl0; simpl in Hl'; [|done].
      inversion Hl' as [Ho']. subst o'.
      change (proto o0 = GlobalErrorMsgClass) in Hc.
      change (props (set_prop k v o0)) with (<[k := v]> (props o0)).
      rewrite dom_insert_L, (Hw l o0 Hl0 Hc).
      apply (subseteq_union_1_L (C := gset string)).
      by apply singleton_subseteq_l, elem_of_list_to_set.
    + rewrite put_lookup_ne in Hl' by done. by apply (Hw l').
  - done.
  - done.
Qed.

Lemma run_keeps_shape (ops : list op) (w : world) :
  well_shaped (heap w) → well_shaped (heap (run m ops w)).
Proof.
  revert w. induction ops as [|o ops IH]; intros w Hw; simpl; [done|].
  apply IH. by apply exec_keeps_shape.
Qed.
End Shape.

Lemma boot_shape (pref : bool) : well_shaped (heap (boot pref).2).
Proof.
  intros l o Hl Hc. change (heap (boot pref).2) with (App.app ∅).2 in Hl.
  unfold App.app, alloc in Hl. simpl in Hl.
  destruct (decide (l = fresh (dom (∅ : gmap loc object)))) as [->|Hne].
  - rewrite lookup_insert_eq in Hl. inversion Hl. subst o. discriminate Hc.
  - rewrite lookup_insert_ne in Hl by done. by rewrite lookup_empty in Hl.
Qed.

(** X6: in every state the program reaches, every object of the class has
    the four declared fields as its properties, no more and no fewer:
    constructions create such objects and assignments to fields keep the
    set of properties. *)
Theorem instances_keep_shape
    (pref : bool) (ops : list op) (l : loc) (o : object) :
  heap (run (boot pref).1 ops (boot pref).2) !! l = Some o →
  proto o = GlobalErrorMsgClass →
  dom (props o) = list_to_set GlobalErrorMsg.fields.
Proof.
  intros Hl Hc.
  by apply (run_keeps_shape (boot pref).1 ops (boot pref).2 (boot_shape pref) l).
Qed.

(** After a construction and an assignment to [title]. *)
Lemma instances_keep_shape_after_assign :
  let ops := [New "Network Error" "Failed to reach server" 5000 "error";
              Assign 2%positive "title" (VString "Timeout")] in
  let o := GlobalErrorMsg.record "Timeout" "Failed to reach server" 5000 "error" in
  heap (run (boot true).1 ops (boot true).2) !! 2%positive = Some o ∧
  proto o = GlobalErrorMsgClass ∧
  dom (props o) = list_to_set GlobalErrorMsg.fields.
Proof.
  intros ops o.
  assert (Hl : heap (run (boot true).1 ops (boot true).2) !! 2%positive = Some o)
    by reflexivity.
  assert (Hc : proto o = GlobalErrorMsgClass) by reflexivity.
  split; [exact Hl|]. split; [exact Hc|].
  exact (instances_keep_shape true ops 2%positive o Hl Hc).
Defined.



